(** * app.py: response assembly and the two string helpers

    A shallow embedding of the three functions of [app.py] that carry logic:
    [get_gemini_response], [get_model_name] and [get_storage_url], and of
    the part of the page script that builds the prompt.

    Python strings are modelled as [string] (sequences of 8-bit characters).
    The two patterns the program searches for are plain ASCII, so searching
    the UTF-8 encoding position by position finds the same occurrences as
    searching code points.

    Python exceptions are modelled by an error monad: an expression either
    evaluates to a value ([Ok]) or raises ([Raise]). *)

From Stdlib Require Import String Ascii List Bool Arith Lia QArith.
Import ListNotations.
Close Scope Q_scope.
Open Scope list_scope.
Open Scope string_scope.

(* ================================================================== *)
(** * Exceptions and the error monad *)
(* ================================================================== *)

Module Py.

(** Exception classes.  [Subclass name base] is a class declared elsewhere
    (by the SDK, say) that derives from [base]. *)
Inductive exn_class : Type :=
| IndexError
| KeyError
| ValueError
| AttributeError
| TypeError
| ConnectionError
| Subclass (name : string) (base : exn_class).

(** A raised exception: its class and its message. *)
Record exn : Type := mk_exn { exn_cls : exn_class; exn_msg : string }.

(** [except IndexError:] catches instances of [IndexError] and of the
    classes derived from it. *)
Fixpoint is_IndexError (c : exn_class) : bool :=
  match c with
  | IndexError => true
  | Subclass _ base => is_IndexError base
  | _ => false
  end.

Definition except_IndexError (e : exn) : bool := is_IndexError (exn_cls e).

Inductive result (A : Type) : Type :=
| Ok (a : A)
| Raise (e : exn).

Arguments Ok {A} a.
Arguments Raise {A} e.

Definition bind {A B : Type} (c : result A) (k : A -> result B) : result B :=
  match c with
  | Ok a => k a
  | Raise e => Raise e
  end.

End Py.

Import Py.

Declare Scope py_scope.
Delimit Scope py_scope with py.
Notation "x <- c ;; k" := (bind c (fun x => k))
  (at level 61, c at next level, right associativity) : py_scope.
Open Scope py_scope.

(* ================================================================== *)
(** * The string methods the program calls *)
(* ================================================================== *)

Module Str.

(** [s.startswith(p)], written with the pattern first. *)
Fixpoint startswith (p s : string) : bool :=
  match p with
  | EmptyString => true
  | String a p' =>
      match s with
      | EmptyString => false
      | String c s' => Ascii.eqb a c && startswith p' s'
      end
  end.

(** [sub in s]: [sub] occurs at some position of [s]. *)
Fixpoint contains (sub s : string) : bool :=
  startswith sub s ||
  match s with
  | EmptyString => false
  | String _ s' => contains sub s'
  end.

(** [c in p] for a single character. *)
Fixpoint mem (c : ascii) (p : string) : bool :=
  match p with
  | EmptyString => false
  | String a p' => Ascii.eqb c a || mem c p'
  end.

(** The first character of the pattern occurs nowhere else in it, so two
    occurrences of the pattern never overlap. *)
Definition head_unique (p : string) : bool :=
  match p with
  | EmptyString => false
  | String a p' => negb (mem a p')
  end.

(** [sep.join(ls)]. *)
Fixpoint join (sep : string) (ls : list string) : string :=
  match ls with
  | [] => ""
  | [x] => x
  | x :: xs => x ++ sep ++ join sep xs
  end.

(** The scan behind [s.split(sep)] for a non-empty [sep]: the string is read
    left to right; where [sep] starts the current piece is closed and the
    next [length sep - 1] characters (the rest of the separator, counted by
    [skip]) are passed over; any other character joins the current piece.
    The result is never empty: its head is the piece being built. *)
Fixpoint split_from (sep : string) (skip : nat) (s : string) : list string :=
  match s with
  | EmptyString => [""]
  | String c s' =>
      match skip with
      | S k => split_from sep k s'
      | O =>
          if startswith sep s
          then "" :: split_from sep (String.length sep - 1) s'
          else match split_from sep 0 s' with
               | piece :: pieces => String c piece :: pieces
               | [] => [String c ""]
               end
      end
  end.

(** [s.split(sep)]; an empty separator raises [ValueError]. *)
Definition split (s sep : string) : result (list string) :=
  match sep with
  | EmptyString => Raise (mk_exn ValueError "empty separator")
  | _ => Ok (split_from sep 0 s)
  end.

(** The scan behind [s.replace(old, new)] for a non-empty [old]: every
    occurrence found reading left to right, not overlapping an earlier one,
    is replaced by [new]. *)
Fixpoint replace_from (old new : string) (skip : nat) (s : string) : string :=
  match s with
  | EmptyString => ""
  | String c s' =>
      match skip with
      | S k => replace_from old new k s'
      | O =>
          if startswith old s
          then new ++ replace_from old new (String.length old - 1) s'
          else String c (replace_from old new 0 s')
      end
  end.

(** With an empty [old], [new] is put before every character and at the
    end. *)
Fixpoint intersperse (new s : string) : string :=
  match s with
  | EmptyString => new
  | String c s' => new ++ String c (intersperse new s')
  end.

(** [s.replace(old, new)]. *)
Definition replace (s old new : string) : string :=
  match old with
  | EmptyString => intersperse new s
  | _ => replace_from old new 0 s
  end.

End Str.

(** [l[i]] for a non-negative index. *)
Definition getitem {A : Type} (l : list A) (i : nat) : result A :=
  match nth_error l i with
  | Some x => Ok x
  | None => Raise (mk_exn IndexError "list index out of range")
  end.

(* ================================================================== *)
(** * The SDK objects the program handles *)
(* ================================================================== *)

Inductive HarmCategory : Type :=
| HARM_CATEGORY_HARASSMENT
| HARM_CATEGORY_HATE_SPEECH
| HARM_CATEGORY_SEXUALLY_EXPLICIT
| HARM_CATEGORY_DANGEROUS_CONTENT.

Inductive HarmBlockThreshold : Type :=
| BLOCK_LOW_AND_ABOVE
| BLOCK_MEDIUM_AND_ABOVE
| BLOCK_ONLY_HIGH
| BLOCK_NONE.

(** The dict literal of thresholds, in the order it is written. *)
Definition SafetySettings : Type := list (HarmCategory * HarmBlockThreshold).

Record GenerationConfig : Type := mk_GenerationConfig {
  temperature : Q;
  max_output_tokens : option nat
}.

(** [contents: str | list]; the elements of the list are opaque to the
    program and stand here as strings. *)
Inductive Contents : Type :=
| ContentsStr (s : string)
| ContentsList (parts : list string).

(** The only thing the program asks of a response object [r] is [r.text], a
    property that yields the text payload or raises.  Everything else the
    object carries is left abstract. *)
Class HasText (R : Type) : Type := text : R -> result string.

(** What iterating the streamed response will do: stop, yield a chunk and go
    on, or raise out of the iterator itself. *)
Inductive Generator (R : Type) : Type :=
| StopIteration
| Yield (r : R) (rest : Generator R)
| Throw (e : exn).

Arguments StopIteration {R}.
Arguments Yield {R} r rest.
Arguments Throw {R} e.

(** A stream that yields the given chunks in order and then stops. *)
Fixpoint yields {R : Type} (chunks : list R) : Generator R :=
  match chunks with
  | [] => StopIteration
  | r :: rest => Yield r (yields rest)
  end.

(** What [generate_content] hands back: one response object, which has
    [.text] and is not iterable, or a generator of them, which is iterable
    and has no [.text]. *)
Inductive Responses (R : Type) : Type :=
| Single (r : R)
| Streamed (g : Generator R).

Arguments Single {R} r.
Arguments Streamed {R} g.

(** A model handle: its identifier and the provider call, which may raise. *)
Record GenerativeModel (R : Type) : Type := mk_GenerativeModel {
  _model_name : string;
  generate_content :
    Contents -> GenerationConfig -> SafetySettings -> bool ->
    result (Responses R)
}.

Arguments mk_GenerativeModel {R} _ _.
Arguments _model_name {R} _.
Arguments generate_content {R} _ _ _ _ _.

(* ================================================================== *)
(** * get_gemini_response *)
(* ================================================================== *)

Section Assembler.

Context {R : Type} {R_text : HasText R}.

Definition safety_settings : SafetySettings :=
  [ (HARM_CATEGORY_HARASSMENT, BLOCK_ONLY_HIGH);
    (HARM_CATEGORY_HATE_SPEECH, BLOCK_ONLY_HIGH);
    (HARM_CATEGORY_SEXUALLY_EXPLICIT, BLOCK_ONLY_HIGH);
    (HARM_CATEGORY_DANGEROUS_CONTENT, BLOCK_ONLY_HIGH) ].

(** The default of the [generation_config] argument. *)
Definition default_generation_config : GenerationConfig :=
  {| temperature := (1 # 10)%Q; max_output_tokens := Some 2048 |}.

(** [responses.text] *)
Definition responses_text (responses : Responses R) : result string :=
  match responses with
  | Single r => text r
  | Streamed _ =>
      Raise (mk_exn AttributeError
                    "'generator' object has no attribute 'text'")
  end.

(** [iter(responses)] *)
Definition responses_iter (responses : Responses R) : result (Generator R) :=
  match responses with
  | Streamed g => Ok g
  | Single _ =>
      Raise (mk_exn TypeError "'GenerationResponse' object is not iterable")
  end.

(** The loop
<<
    for r in responses:
        try:
            final_response.append(r.text)
        except IndexError:
            final_response.append("")
            continue
>>
    run on the generator [responses] with the list [final_response] built so
    far.  It gives the list on normal exit or the exception that left the
    loop, together with what the generator still holds at that point. *)
Fixpoint for_r_in_responses (responses : Generator R)
    (final_response : list string) : result (list string) * Generator R :=
  match responses with
  | StopIteration => (Ok final_response, StopIteration)
  | Throw e => (Raise e, StopIteration)
  | Yield r rest =>
      match text r with
      | Ok t => for_r_in_responses rest (final_response ++ [t])%list
      | Raise e =>
          if except_IndexError e
          then for_r_in_responses rest (final_response ++ [""])%list
          else (Raise e, rest)
      end
  end.

(** The list [final_response] as it stands when the loop is left normally. *)
Definition accumulate (responses : Generator R) : result (list string) :=
  fst (for_r_in_responses responses []).

(** The chunks the generator has not handed out when the loop is left. *)
Definition unconsumed (responses : Generator R) : Generator R :=
  snd (for_r_in_responses responses []).

(** A chunk the loop gets past: its text is there, or reading it raises
    what [except IndexError] catches. *)
Definition recoverable (r : R) : bool :=
  match text r with
  | Ok _ => true
  | Raise e => except_IndexError e
  end.

(** What the loop appends for such a chunk. *)
Definition appended (r : R) : string :=
  match text r with
  | Ok t => t
  | Raise _ => ""
  end.

Definition get_gemini_response (model : GenerativeModel R)
    (contents : Contents) (generation_config : GenerationConfig)
    (stream : bool) : result string :=
  responses <-
    generate_content model contents generation_config safety_settings stream ;;
  if negb stream then
    responses_text responses
  else
    it <- responses_iter responses ;;
    final_response <- accumulate it ;;
    Ok (Str.join " " final_response).

(* ================================================================== *)
(** * get_model_name and get_storage_url *)
(* ================================================================== *)

Definition get_model_name (model : GenerativeModel R) : string :=
  let model_name :=
    Str.replace (_model_name model) "publishers/google/models/" "" in
  "`" ++ model_name ++ "`".

End Assembler.

Definition get_storage_url (gcs_uri : string) : result string :=
  pieces <- Str.split gcs_uri "gs://" ;;
  tail <- getitem pieces 1 ;;
  Ok ("https://storage.googleapis.com/" ++ tail).

(* ================================================================== *)
(** * The page: the form and the prompt *)
(* ================================================================== *)

Module Page.

(** What a name of the script is bound to: the text of a [text_input] or
    the option of a [radio], the options picked in a [multiselect], or an
    object of no concern here (a module, a function, a model, a tab). *)
Inductive value : Type :=
| Str (s : string)
| StrList (l : list string)
| Object.

(** The names of the module, the latest binding first. *)
Definition namespace : Type := list (string * value).

(** Evaluating an expression made of name loads: a value, or [NameError]
    with the name that is not defined. *)
Inductive evaluated (A : Type) : Type :=
| Value (a : A)
| NameError (name : string).

Arguments Value {A} a.
Arguments NameError {A} name.

Fixpoint load_name (ns : namespace) (name : string) : evaluated value :=
  match ns with
  | [] => NameError name
  | (n, v) :: ns' =>
      if (n =? name)%string then Value v else load_name ns' name
  end.

Definition store_name (name : string) (v : value) (ns : namespace)
  : namespace :=
  (name, v) :: ns.

(** An f-string: literal text and replacement fields [{name}]. *)
Inductive piece : Type :=
| Literal (s : string)
| Field (name : string).

(** The line feed, for the ends of the lines of the literal and for its
    [\n] escapes. *)
Definition LF : string := String (ascii_of_nat 10) "".

(** The f-string bound to [prompt], line by line as it is written. *)
Definition prompt_template : list piece :=
  [ Literal LF;
    Literal "    Write a comprehensive syllabus on the following premise:"; Literal LF;
    Literal "    "; Literal LF; Literal " "; Literal LF;
    Literal "    company_industry: "; Field "company_industry"; Literal LF; Literal LF;
    Literal "    job_title: "; Field "job_title"; Literal " "; Literal LF; Literal LF;
    Literal "    job_level: "; Field "job_level"; Literal " "; Literal LF; Literal LF;
    Literal "    If the class_type: "; Field "class_type"; Literal " then create upskill recommendation syllabus based on "; Field "upskill_class"; Literal " type "; Literal LF; Literal LF;
    Literal "    If the class_type: "; Field "class_type"; Literal " then create language recommendation syllabus based on "; Field "language_class"; Literal " type "; Literal LF; Literal LF;
    Literal "    Provide a clear introduction to the course, outlining its objectives, learning outcomes, and the skills students will acquire."; Literal LF;
    Literal "    Divide the course into logical sections or modules. Each module should cover specific topics in detail and include subtopics as needed. Ensure the order of topics is coherent and follows a natural progression of learning."; Literal LF;
    Literal "    Specify the types of assessments (e.g., quizzes, assignments, projects) and how they align with learning outcomes. Include a grading rubric or percentage breakdown.      "; Literal LF;
    Literal "    Provide a list of textbooks, articles, or other materials that students need to review. Include both mandatory and supplementary readings."; Literal LF;
    Literal "    Highlight any practical activities, labs, or case studies included in the syllabus to deepen understanding of the subject."; Literal LF;
    Literal "    " ].

(** The names bound by the script before the form: imports, constants,
    functions, the two models, the two tabs and the model picked. *)
Definition bound_before_form : namespace :=
  map (fun name => (name, Object))
    [ "selected_model"; "upskill"; "enterprise"; "gemini_15_pro";
      "gemini_15_flash"; "get_storage_url"; "get_model_name";
      "get_gemini_response"; "load_models"; "LOCATION"; "PROJECT_ID";
      "Part"; "HarmCategory"; "HarmBlockThreshold"; "GenerativeModel";
      "GenerationConfig"; "vertexai"; "st"; "os" ].

(** What the widgets of the form return.  Only one of the two
    [multiselect] calls is ever made; [multiselect] is what it returns. *)
Record Form : Type := mk_Form {
  company_name : string;
  company_industry : string;
  job_title : string;
  job_level : string;
  class_type : string;
  multiselect : list string;
  class_format : string;
  learning_objective : string
}.

(** The assignments of the form, in the order of the script. *)
Definition questionnaire (form : Form) (ns : namespace) : namespace :=
  let ns := store_name "company_name" (Str (company_name form)) ns in
  let ns := store_name "company_industry" (Str (company_industry form)) ns in
  let ns := store_name "job_title" (Str (job_title form)) ns in
  let ns := store_name "job_level" (Str (job_level form)) ns in
  let ns := store_name "class_type" (Str (class_type form)) ns in
  let ns :=
    if (class_type form =? "language")%string then
      store_name "language_class" (StrList (multiselect form)) ns
    else if (class_type form =? "upskill")%string then
      store_name "upskill_class" (StrList (multiselect form)) ns
    else ns in
  let ns := store_name "class_format" (Str (class_format form)) ns in
  let ns :=
    store_name "learning_objective" (Str (learning_objective form)) ns in
  ns.

Section Script.

(** The builtin [format] applied to the value of a field, with an empty
    format spec; nothing below depends on what it gives. *)
Variable format : value -> string.

(** The fields are evaluated from left to right; the first name that is
    not defined ends the evaluation. *)
Fixpoint fstring (ns : namespace) (template : list piece)
  : evaluated string :=
  match template with
  | [] => Value ""
  | Literal s :: rest =>
      match fstring ns rest with
      | Value t => Value (s ++ t)
      | NameError name => NameError name
      end
  | Field name :: rest =>
      match load_name ns name with
      | NameError n => NameError n
      | Value v =>
          match fstring ns rest with
          | Value t => Value (format v ++ t)
          | NameError n => NameError n
          end
      end
  end.

(** The assignment to [prompt], evaluated after the form. *)
Definition prompt (form : Form) : evaluated string :=
  fstring (questionnaire form bound_before_form) prompt_template.

End Script.

End Page.

(* ================================================================== *)
(** * Sample provider objects *)
(* ================================================================== *)

Module Sample.

(** A response object that is nothing but the outcome of its [.text]. *)
Definition chunk : Type := result string.

#[export] Instance chunk_text : HasText chunk := fun r => r.

(** Reading the text of a chunk without candidates. *)
Definition no_payload : chunk :=
  Raise (mk_exn IndexError "list index out of range").

(** A failure of the transport while the text is read. *)
Definition transport_error : chunk :=
  Raise (mk_exn ConnectionError "connection reset").

(** A provider that answers every call with [single] when asked not to
    stream and with the chunks [chunks] when asked to stream. *)
Definition canned (name : string) (single : chunk) (chunks : list chunk)
  : GenerativeModel chunk :=
  {| _model_name := name;
     generate_content := fun _ _ _ stream =>
       Ok (if stream then Streamed (yields chunks) else Single single) |}.

Definition prompt : Contents := ContentsStr "Write a comprehensive syllabus".

(** A chunk whose text is [t]. *)
Definition said (t : string) : chunk := Ok t.

Definition pro (single : chunk) (chunks : list chunk)
  : GenerativeModel chunk :=
  canned "publishers/google/models/gemini-1.5-pro" single chunks.

Definition flash (single : chunk) (chunks : list chunk)
  : GenerativeModel chunk :=
  canned "publishers/google/models/gemini-1.5-flash" single chunks.

(** The configuration the page builds: a temperature and no token limit. *)
Definition config : GenerationConfig :=
  {| temperature := (95 # 100)%Q; max_output_tokens := None |}.

End Sample.

(** A provider whose stream yields [chunks] and then raises [e] out of
    the iterator. *)
Definition breaking_off (name : string) (chunks : list Sample.chunk)
    (e : exn) : GenerativeModel Sample.chunk :=
  {| _model_name := name;
     generate_content := fun _ _ _ _ =>
       Ok (Streamed (fold_right Yield (Throw e) chunks)) |}.

(* ================================================================== *)
(** * Facts about the string scans *)
(* ================================================================== *)

Module StrFacts.
Import Str.

Lemma append_assoc (s t u : string) : (s ++ t) ++ u = s ++ t ++ u.
Proof. induction s as [|c s IH]; simpl; congruence. Qed.

Lemma append_nil_r (s : string) : s ++ "" = s.
Proof. induction s as [|c s IH]; simpl; congruence. Qed.

Lemma length_append (s t : string) :
  String.length (s ++ t) = String.length s + String.length t.
Proof. induction s as [|c s IH]; simpl; congruence. Qed.

Lemma startswith_app (p s : string) : startswith p (p ++ s) = true.
Proof.
  induction p as [|a p IH]; simpl; [reflexivity|].
  now rewrite Ascii.eqb_refl, IH.
Qed.

Lemma startswith_inv (p s : string) :
  startswith p s = true -> exists t, s = p ++ t.
Proof.
  revert s; induction p as [|a p IH]; intros s H; simpl in *.
  - now exists s.
  - destruct s as [|c s]; [discriminate|].
    apply andb_true_iff in H as [Hac Hp].
    apply Ascii.eqb_eq in Hac; subst c.
    destruct (IH _ Hp) as [t ->]. now exists t.
Qed.

(** [startswith] decides "[s] begins with [p]". *)
Lemma startswith_spec (p s : string) :
  startswith p s = true <-> exists t, s = p ++ t.
Proof.
  split; [apply startswith_inv|].
  intros [t ->]; apply startswith_app.
Qed.

Lemma startswith_contains (sub s : string) :
  startswith sub s = true -> contains sub s = true.
Proof. intros H; destruct s; simpl; rewrite H; reflexivity. Qed.

(** [contains] decides "[sub] occurs somewhere in [s]". *)
Lemma contains_spec (sub s : string) :
  contains sub s = true <-> exists pre post, s = pre ++ sub ++ post.
Proof.
  split.
  - induction s as [|c s IH]; simpl; intros H.
    + rewrite orb_false_r in H.
      apply startswith_inv in H as [t Ht]. now exists "", t.
    + apply orb_true_iff in H as [H|H].
      * apply startswith_inv in H as [t Ht]. now exists "", t.
      * destruct (IH H) as (pre & post & ->). now exists (String c pre), post.
  - intros (pre & post & ->).
    induction pre as [|c pre IH]; simpl.
    + apply startswith_contains, startswith_app.
    + rewrite IH. apply orb_true_r.
Qed.

Lemma contains_cons_false (sub : string) (c : ascii) (s : string) :
  contains sub (String c s) = false ->
  startswith sub (String c s) = false /\ contains sub s = false.
Proof. simpl; intros H. now apply orb_false_iff in H. Qed.

(** A pattern in which [a] does not occur cannot reach across an [a]. *)
Lemma startswith_stops_at (a : ascii) (p s t : string) :
  mem a p = false ->
  startswith p (s ++ String a t) = true ->
  startswith p s = true.
Proof.
  revert s; induction p as [|b p IH]; intros s Hmem H; [reflexivity|].
  simpl in Hmem. apply orb_false_iff in Hmem as [Hab Hmem].
  destruct s as [|d s]; simpl in *.
  - apply andb_true_iff in H as [Hba _].
    rewrite Ascii.eqb_sym in Hab. congruence.
  - apply andb_true_iff in H as [Hbd H].
    rewrite Hbd; simpl. now apply IH.
Qed.

(** With a pattern whose first character is unique in it, an occurrence that
    starts inside a non-empty [seg] placed before another occurrence lies
    inside [seg] altogether. *)
Lemma startswith_before (pat seg tail : string) (c : ascii) :
  head_unique pat = true ->
  startswith pat tail = true ->
  startswith pat (String c seg ++ tail) = true ->
  startswith pat (String c seg) = true.
Proof.
  destruct pat as [|a p]; [discriminate|]; intros Hu Ht H.
  simpl in Hu. apply negb_true_iff in Hu.
  destruct tail as [|a' t]; [discriminate|].
  simpl in Ht. apply andb_true_iff in Ht as [Ha _].
  apply Ascii.eqb_eq in Ha; subst a'.
  simpl in *. apply andb_true_iff in H as [Hac H].
  rewrite Hac; simpl. eapply startswith_stops_at; eauto.
Qed.

Section Scans.

Variable pat : string.
Hypothesis pat_head_unique : head_unique pat = true.

Lemma split_from_skip (u s : string) :
  split_from pat (String.length u) (u ++ s) = split_from pat 0 s.
Proof. induction u as [|c u IH]; simpl; auto. Qed.

Lemma replace_from_skip (new u s : string) :
  replace_from pat new (String.length u) (u ++ s) = replace_from pat new 0 s.
Proof. induction u as [|c u IH]; simpl; auto. Qed.

(** At an occurrence the current piece is closed and the scan resumes after
    the separator. *)
Lemma split_from_hit (rest : string) :
  split_from pat 0 (pat ++ rest) = "" :: split_from pat 0 rest.
Proof.
  pose proof (startswith_app pat rest) as Hs.
  pose proof (split_from_skip) as Hk.
  destruct pat as [|a p]; [discriminate|].
  change (String a p ++ rest) with (String a (p ++ rest)) in *.
  cbn [split_from]. rewrite Hs.
  cbn [String.length]. rewrite Nat.sub_1_r. cbn [Nat.pred].
  f_equal. specialize (Hk p rest). exact Hk.
Qed.

Lemma replace_from_hit (new rest : string) :
  replace_from pat new 0 (pat ++ rest) = new ++ replace_from pat new 0 rest.
Proof.
  pose proof (startswith_app pat rest) as Hs.
  pose proof (replace_from_skip new) as Hk.
  destruct pat as [|a p]; [discriminate|].
  change (String a p ++ rest) with (String a (p ++ rest)) in *.
  cbn [replace_from]. rewrite Hs.
  cbn [String.length]. rewrite Nat.sub_1_r. cbn [Nat.pred].
  f_equal. specialize (Hk p rest). exact Hk.
Qed.

(** A string without occurrence is one piece, and is left as it is. *)
Lemma split_from_clean (seg : string) :
  contains pat seg = false -> split_from pat 0 seg = [seg].
Proof.
  induction seg as [|c seg IH]; intros H; [reflexivity|].
  apply contains_cons_false in H as [Hs Hc].
  cbn [split_from]. rewrite Hs, (IH Hc). reflexivity.
Qed.

Lemma replace_from_clean (new seg : string) :
  contains pat seg = false -> replace_from pat new 0 seg = seg.
Proof.
  induction seg as [|c seg IH]; intros H; [reflexivity|].
  apply contains_cons_false in H as [Hs Hc].
  cbn [replace_from]. rewrite Hs, (IH Hc). reflexivity.
Qed.

Lemma no_hit_before (c : ascii) (seg rest : string) :
  contains pat (String c seg) = false ->
  startswith pat (String c (seg ++ pat ++ rest)) = false.
Proof.
  intros H. apply contains_cons_false in H as [Hs _].
  apply not_true_is_false; intros Hhit.
  rewrite (startswith_before pat seg (pat ++ rest) c) in Hs;
    auto using startswith_app.
  discriminate.
Qed.

(** A piece without occurrence followed by the separator is split off
    whole. *)
Lemma split_from_piece (seg rest : string) :
  contains pat seg = false ->
  split_from pat 0 (seg ++ pat ++ rest) = seg :: split_from pat 0 rest.
Proof.
  induction seg as [|c seg IH]; intros H.
  - apply split_from_hit.
  - pose proof (no_hit_before _ _ rest H) as Hn.
    apply contains_cons_false in H as [_ Hc].
    change (String c seg ++ pat ++ rest)
      with (String c (seg ++ pat ++ rest)).
    cbn [split_from]. rewrite Hn, (IH Hc). reflexivity.
Qed.

Lemma replace_from_piece (new seg rest : string) :
  contains pat seg = false ->
  replace_from pat new 0 (seg ++ pat ++ rest)
  = seg ++ new ++ replace_from pat new 0 rest.
Proof.
  induction seg as [|c seg IH]; intros H.
  - apply replace_from_hit.
  - pose proof (no_hit_before _ _ rest H) as Hn.
    apply contains_cons_false in H as [_ Hc].
    change (String c seg ++ pat ++ rest)
      with (String c (seg ++ pat ++ rest)).
    cbn [replace_from]. rewrite Hn, (IH Hc). reflexivity.
Qed.

(** Replacing in a join of pieces without occurrence replaces exactly the
    separators. *)
Lemma replace_from_join (new : string) (segs : list string) :
  forallb (fun seg => negb (contains pat seg)) segs = true ->
  replace_from pat new 0 (join pat segs) = join new segs.
Proof.
  induction segs as [|seg segs IH]; intros H; [reflexivity|].
  cbn [forallb] in H. apply andb_true_iff in H as [Hseg H].
  apply negb_true_iff in Hseg.
  destruct segs as [|seg' segs].
  - cbn [join]. now apply replace_from_clean.
  - change (join pat (seg :: seg' :: segs))
      with (seg ++ pat ++ join pat (seg' :: segs)).
    rewrite (replace_from_piece new _ _ Hseg), (IH H). reflexivity.
Qed.

End Scans.

(** An occurrence that starts at the head of [s] is still there when [s] is
    extended. *)
Lemma startswith_extend (p s t : string) :
  startswith p s = true -> startswith p (s ++ t) = true.
Proof.
  intros H. apply startswith_inv in H as [u ->].
  rewrite append_assoc. apply startswith_app.
Qed.

(** Where the pattern occurs, there is a first occurrence. *)
Lemma first_occurrence (pat s : string) :
  pat <> "" ->
  contains pat s = true ->
  exists pre post, s = pre ++ pat ++ post /\ contains pat pre = false.
Proof.
  intros Hne. induction s as [|c s IH]; intros H.
  - destruct pat; [congruence|discriminate].
  - destruct (startswith pat (String c s)) eqn:Hs.
    + apply startswith_inv in Hs as [t Ht].
      exists "", t. split; [exact Ht|].
      destruct pat; [congruence|reflexivity].
    + cbn [contains] in H. rewrite Hs in H. cbn [orb] in H.
      destruct (IH H) as (pre & post & -> & Hpre).
      exists (String c pre), post. split; [reflexivity|].
      cbn [contains]. rewrite Hpre, orb_false_r.
      apply not_true_is_false; intros Hp.
      apply (startswith_extend _ _ (pat ++ post)) in Hp.
      cbn [String.append] in Hp. congruence.
Qed.

(** Every string is a join of pieces in which the pattern does not occur. *)
Lemma every_string_is_a_join (pat s : string) :
  pat <> "" ->
  exists segs, segs <> []
               /\ s = join pat segs
               /\ forallb (fun seg => negb (contains pat seg)) segs = true.
Proof.
  intros Hne.
  remember (String.length s) as n eqn:Hn.
  revert s Hn; induction n as [n IH] using lt_wf_ind; intros s Hn.
  destruct (contains pat s) eqn:Hc.
  - destruct (first_occurrence pat s Hne Hc) as (pre & post & -> & Hpre).
    destruct (IH (String.length post)) with (s := post)
      as (segs & Hnil & -> & Hsegs); [|reflexivity|].
    { subst n. rewrite !length_append.
      destruct pat; [congruence|]. cbn [String.length]. lia. }
    exists (pre :: segs). repeat split.
    + discriminate.
    + destruct segs as [|seg segs]; [congruence|reflexivity].
    + cbn [forallb]. now rewrite Hpre, Hsegs.
  - exists [s]. repeat split; [discriminate|].
    cbn [forallb]. now rewrite Hc.
Qed.

End StrFacts.

(* ================================================================== *)
(** * Facts about the loop *)
(* ================================================================== *)

Section LoopFacts.

Context {R : Type} {R_text : HasText R}.

(** The loop gets past a run of recoverable chunks, appending one string for
    each, and goes on with what follows them. *)
Lemma loop_past_recoverable (before rest : list R) (acc : list string) :
  forallb recoverable before = true ->
  for_r_in_responses (yields (before ++ rest)) acc
  = for_r_in_responses (yields rest) (acc ++ map appended before).
Proof.
  revert acc; induction before as [|r before IH]; intros acc H; simpl.
  - now rewrite app_nil_r.
  - simpl in H. apply andb_true_iff in H as [Hr H].
    unfold recoverable in Hr. unfold appended at 1.
    destruct (text r) as [t|e]; [|rewrite Hr];
      rewrite (IH _ H), <- app_assoc; reflexivity.
Qed.

(** On a stream of recoverable chunks the loop ends normally with one string
    per chunk and the generator exhausted. *)
Lemma loop_all_recoverable (chunks : list R) :
  forallb recoverable chunks = true ->
  for_r_in_responses (yields chunks) []
  = (Ok (map appended chunks), StopIteration).
Proof.
  intros H. rewrite <- (app_nil_r chunks) at 1.
  rewrite (loop_past_recoverable _ [] [] H). reflexivity.
Qed.

(** Chunks that all carry a text are recoverable, and what is appended for
    them is their texts. *)
Lemma texts_present (chunks : list R) (texts : list string) :
  map text chunks = map Ok texts ->
  forallb recoverable chunks = true /\ map appended chunks = texts.
Proof.
  revert texts; induction chunks as [|r chunks IH]; intros [|t texts] H;
    simpl in *; try discriminate; [split; reflexivity|].
  injection H as Hr H. destruct (IH _ H) as [Hrec Happ].
  unfold recoverable at 1, appended at 1. rewrite Hr, Hrec, Happ.
  split; reflexivity.
Qed.

End LoopFacts.

(** The outcome of the loop is a function of the outcomes of the [.text]
    reads, in order; the chunk types may even differ. *)
Lemma loop_depends_on_texts {R1 R2 : Type} {T1 : HasText R1} {T2 : HasText R2}
    (cs1 : list R1) (cs2 : list R2) (acc : list string) :
  map text cs1 = map text cs2 ->
  fst (for_r_in_responses (yields cs1) acc)
  = fst (for_r_in_responses (yields cs2) acc).
Proof.
  revert cs2 acc; induction cs1 as [|r1 cs1 IH]; intros [|r2 cs2] acc H;
    simpl in *; try discriminate; [reflexivity|].
  injection H as Hr H. rewrite Hr.
  destruct (text r2) as [t|e]; [apply IH; assumption|].
  destruct (except_IndexError e); [apply IH; assumption|reflexivity].
Qed.

(* ================================================================== *)
(** * The response assembler *)
(* ================================================================== *)

Section AssemblerSpec.

Context {R : Type} {R_text : HasText R}.

Variable model : GenerativeModel R.
Variable contents : Contents.
Variable generation_config : GenerationConfig.

(** C1.  When the provider streams the chunks [c1 .. cn] and every chunk has
    a text, the assembler returns the texts joined by one space, in the
    order of arrival: nothing is reordered and nothing is dropped. *)
Theorem stream_joins_texts_in_order (chunks : list R) (texts : list string) :
  generate_content model contents generation_config safety_settings true
  = Ok (Streamed (yields chunks)) ->
  map text chunks = map Ok texts ->
  get_gemini_response model contents generation_config true
  = Ok (Str.join " " texts).
Proof.
  intros Hcall Htexts. unfold get_gemini_response. rewrite Hcall.
  cbn [bind negb responses_iter].
  destruct (texts_present _ _ Htexts) as [Hrec Happ].
  unfold accumulate. rewrite (loop_all_recoverable _ Hrec), Happ.
  reflexivity.
Qed.

(** C2.  When reading the text of chunk [k] of an [n]-chunk stream fails
    with the no-payload condition (an [IndexError]), the assembler does not
    stop: the list it joins has the texts before [k], an empty string at
    position [k] and the texts after [k], so its length is [n]; the
    generator is read to its end; the result is the join of that list. *)
Theorem missing_payload_becomes_empty_string
    (before after : list R) (bad : R) (e : exn)
    (texts_before texts_after : list string) :
  generate_content model contents generation_config safety_settings true
  = Ok (Streamed (yields (before ++ bad :: after))) ->
  map text before = map Ok texts_before ->
  map text after = map Ok texts_after ->
  text bad = Raise e ->
  except_IndexError e = true ->
  let final_response := (texts_before ++ "" :: texts_after)%list in
  accumulate (yields (before ++ bad :: after)) = Ok final_response
  /\ List.length final_response = List.length (before ++ bad :: after)
  /\ nth_error final_response (List.length before) = Some ""
  /\ unconsumed (yields (before ++ bad :: after)) = StopIteration
  /\ get_gemini_response model contents generation_config true
     = Ok (Str.join " " final_response).
Proof.
  intros Hcall Hb Ha Hbad He final_response.
  destruct (texts_present _ _ Hb) as [Hrb Hab].
  destruct (texts_present _ _ Ha) as [Hra Haa].
  assert (Hrec : forallb recoverable (before ++ bad :: after) = true).
  { rewrite forallb_app; simpl. unfold recoverable at 2.
    now rewrite Hrb, Hbad, He, Hra. }
  assert (Happ : map appended (before ++ bad :: after) = final_response).
  { rewrite map_app; simpl. unfold appended at 2.
    now rewrite Hab, Hbad, Haa. }
  assert (Hloop : for_r_in_responses (yields (before ++ bad :: after)) []
                  = (Ok final_response, StopIteration)).
  { now rewrite (loop_all_recoverable _ Hrec), Happ. }
  assert (Hlen : List.length texts_before = List.length before).
  { rewrite <- Hab. apply length_map. }
  repeat split.
  - unfold accumulate. now rewrite Hloop.
  - rewrite <- Happ. apply length_map.
  - unfold final_response. rewrite <- Hlen.
    rewrite nth_error_app2, Nat.sub_diag by lia. reflexivity.
  - unfold unconsumed. now rewrite Hloop.
  - unfold get_gemini_response. rewrite Hcall.
    cbn [bind negb responses_iter]. unfold accumulate. now rewrite Hloop.
Qed.

(** C3.  When the provider is asked not to stream and the text [P] of its
    response is there, the assembler returns [P] as it is. *)
Theorem single_response_returned_verbatim (r : R) (P : string) :
  generate_content model contents generation_config safety_settings false
  = Ok (Single r) ->
  text r = Ok P ->
  get_gemini_response model contents generation_config false = Ok P.
Proof.
  intros Hcall Hr. unfold get_gemini_response. rewrite Hcall.
  cbn [bind negb responses_text].
  exact Hr.
Qed.

(** C4.  Nothing but the per-chunk [IndexError] of streaming mode is caught.
    Without streaming, whatever reading the text raises (an [IndexError]
    too) is raised by the assembler.  With streaming, when the chunks before
    chunk [k] are got past and reading the text of chunk [k] raises
    something [except IndexError] does not catch, the assembler raises that
    same exception and the chunks after [k] are left in the generator. *)
Theorem other_failures_propagate :
  (forall (r : R) (e : exn),
      generate_content model contents generation_config safety_settings false
      = Ok (Single r) ->
      text r = Raise e ->
      get_gemini_response model contents generation_config false = Raise e)
  /\
  (forall (before after : list R) (bad : R) (e : exn),
      generate_content model contents generation_config safety_settings true
      = Ok (Streamed (yields (before ++ bad :: after))) ->
      forallb recoverable before = true ->
      text bad = Raise e ->
      except_IndexError e = false ->
      get_gemini_response model contents generation_config true = Raise e
      /\ unconsumed (yields (before ++ bad :: after)) = yields after).
Proof.
  split.
  - intros r e Hcall Hr. unfold get_gemini_response. rewrite Hcall.
    cbn [bind negb responses_text]. exact Hr.
  - intros before after bad e Hcall Hrec Hbad He.
    assert (Hloop : for_r_in_responses (yields (before ++ bad :: after)) []
                    = (Raise e, yields after)).
    { rewrite (loop_past_recoverable _ _ _ Hrec).
      cbn [yields for_r_in_responses]. now rewrite Hbad, He. }
    split.
    + unfold get_gemini_response. rewrite Hcall.
      cbn [bind negb responses_iter]. unfold accumulate.
      now rewrite Hloop.
    + unfold unconsumed. now rewrite Hloop.
Qed.

(** The same holds of the failures that are not tied to a chunk: an
    exception raised by the provider call, or by the generator between two
    chunks, is what the assembler raises. *)
Lemma provider_failure_propagates (stream : bool) (e : exn) :
  generate_content model contents generation_config safety_settings stream
  = Raise e ->
  get_gemini_response model contents generation_config stream = Raise e.
Proof. intros Hcall. unfold get_gemini_response. now rewrite Hcall. Qed.

Lemma generator_failure_propagates (before : list R) (e : exn) :
  forallb recoverable before = true ->
  fst (for_r_in_responses
         (fold_right Yield (Throw e) before) [])
  = Raise e.
Proof.
  generalize (@nil string).
  induction before as [|r before IH]; intros acc H; [reflexivity|].
  cbn [forallb] in H. apply andb_true_iff in H as [Hr H].
  cbn [fold_right for_r_in_responses]. unfold recoverable in Hr.
  destruct (text r) as [t|e']; [|rewrite Hr]; now apply IH.
Qed.

(** C5.  A stream of zero chunks is assembled into the empty string. *)
Theorem empty_stream_gives_empty_string :
  generate_content model contents generation_config safety_settings true
  = Ok (Streamed StopIteration) ->
  get_gemini_response model contents generation_config true = Ok "".
Proof.
  intros Hcall. unfold get_gemini_response. rewrite Hcall. reflexivity.
Qed.

End AssemblerSpec.

(** C6.  The assembled string is determined by the outcomes of the [.text]
    reads in their order of arrival: two calls whose streams agree on them
    return the same thing, whatever the model, the prompt, the
    configuration and whatever else the chunks carry. *)
Theorem assembler_deterministic
    {R1 R2 : Type} {T1 : HasText R1} {T2 : HasText R2}
    (model1 : GenerativeModel R1) (model2 : GenerativeModel R2)
    (contents1 contents2 : Contents) (config1 config2 : GenerationConfig)
    (chunks1 : list R1) (chunks2 : list R2) :
  generate_content model1 contents1 config1 safety_settings true
  = Ok (Streamed (yields chunks1)) ->
  generate_content model2 contents2 config2 safety_settings true
  = Ok (Streamed (yields chunks2)) ->
  map text chunks1 = map text chunks2 ->
  get_gemini_response model1 contents1 config1 true
  = get_gemini_response model2 contents2 config2 true.
Proof.
  intros H1 H2 Htexts. unfold get_gemini_response. rewrite H1, H2.
  cbn [bind negb responses_iter]. unfold accumulate.
  now rewrite (loop_depends_on_texts chunks1 chunks2 [] Htexts).
Qed.

(** ** The theorems at sample streams *)

Import Sample.

Lemma stream_joins_texts_in_order_witness :
  let chunks := [said "to be"; said "or not"; said "to be"] in
  map text chunks = map Ok ["to be"; "or not"; "to be"]
  /\ get_gemini_response (pro (said "") chunks) prompt config true
     = Ok "to be or not to be".
Proof.
  split; [reflexivity|].
  apply (stream_joins_texts_in_order
           (pro (said "") [said "to be"; said "or not"; said "to be"])
           prompt config
           [said "to be"; said "or not"; said "to be"]
           ["to be"; "or not"; "to be"]);
    reflexivity.
Defined.

Lemma missing_payload_becomes_empty_string_witness :
  let chunks := [said "Hello"; no_payload; said "world"] in
  accumulate (yields chunks) = Ok ["Hello"; ""; "world"]
  /\ List.length ["Hello"; ""; "world"] = List.length chunks
  /\ nth_error ["Hello"; ""; "world"] 1 = Some ""
  /\ unconsumed (yields chunks) = StopIteration
  /\ get_gemini_response (pro (said "") chunks) prompt config true
     = Ok "Hello  world".
Proof.
  apply (missing_payload_becomes_empty_string
           (pro (said "") [said "Hello"; no_payload; said "world"])
           prompt config
           [said "Hello"] [said "world"] no_payload
           (mk_exn IndexError "list index out of range")
           ["Hello"] ["world"]);
    reflexivity.
Defined.

Lemma single_response_returned_verbatim_witness :
  get_gemini_response (flash (said "Syllabus: ...") []) prompt config false
  = Ok "Syllabus: ...".
Proof.
  apply (single_response_returned_verbatim
           (flash (said "Syllabus: ...") []) prompt config
           (said "Syllabus: ...") "Syllabus: ...");
    reflexivity.
Defined.

Lemma other_failures_propagate_witness :
  get_gemini_response (pro no_payload []) prompt config false
  = Raise (mk_exn IndexError "list index out of range")
  /\
  let chunks := [said "Hello"; no_payload; transport_error; said "world"] in
  get_gemini_response (pro (said "") chunks) prompt config true
  = Raise (mk_exn ConnectionError "connection reset")
  /\ unconsumed (yields chunks) = yields [said "world"].
Proof.
  split.
  - apply (proj1 (other_failures_propagate (pro no_payload []) prompt config)
             no_payload (mk_exn IndexError "list index out of range"));
      reflexivity.
  - apply (proj2 (other_failures_propagate
                    (pro (said "")
                       [said "Hello"; no_payload; transport_error;
                        said "world"])
                    prompt config)
             [said "Hello"; no_payload] [said "world"] transport_error
             (mk_exn ConnectionError "connection reset"));
      reflexivity.
Defined.

Lemma empty_stream_gives_empty_string_witness :
  get_gemini_response (pro (said "unused") []) prompt config true = Ok "".
Proof.
  apply (empty_stream_gives_empty_string (pro (said "unused") []) prompt
           config);
    reflexivity.
Defined.

Lemma assembler_deterministic_witness :
  get_gemini_response (pro (said "") [said "a"; no_payload; said "b"])
    prompt config true
  = get_gemini_response (flash (said "x") [said "a"; no_payload; said "b"])
      (ContentsList ["another"; "prompt"]) default_generation_config true.
Proof.
  apply (assembler_deterministic
           (pro (said "") [said "a"; no_payload; said "b"])
           (flash (said "x") [said "a"; no_payload; said "b"])
           prompt (ContentsList ["another"; "prompt"])
           config default_generation_config
           [said "a"; no_payload; said "b"]
           [said "a"; no_payload; said "b"]);
    reflexivity.
Defined.

(* ================================================================== *)
(** * get_storage_url *)
(* ================================================================== *)

(** What [get_storage_url] computes, whatever the input: the second piece of
    the split, behind the public base. *)
Lemma get_storage_url_unfold (gcs_uri : string) :
  get_storage_url gcs_uri
  = match Str.split_from "gs://" 0 gcs_uri with
    | _ :: tail :: _ => Ok ("https://storage.googleapis.com/" ++ tail)
    | _ => Raise (mk_exn IndexError "list index out of range")
    end.
Proof.
  unfold get_storage_url, Str.split. cbn [bind].
  destruct (Str.split_from "gs://" 0 gcs_uri) as [|p [|q l]]; reflexivity.
Qed.

(** C7.  At the reference [gs://my-bucket/mirror/gs://other/object.txt],
    whose object path holds the marker again, [get_storage_url] returns the
    URL cut before the second marker, and not the public base followed by
    what follows the leading [gs://]. *)
Lemma get_storage_url_second_marker :
  get_storage_url ("gs://" ++ "my-bucket/mirror/gs://other/object.txt")
  = Ok "https://storage.googleapis.com/my-bucket/mirror/"
  /\ get_storage_url ("gs://" ++ "my-bucket/mirror/gs://other/object.txt")
     <> Ok ("https://storage.googleapis.com/"
            ++ "my-bucket/mirror/gs://other/object.txt").
Proof. split; [reflexivity|discriminate]. Qed.

(** The URL ends where the marker comes again: for [gs://] followed by
    [seg], where [seg] holds no marker and is followed by nothing or by
    another marker and anything, it is the public base followed by [seg]. *)
Lemma get_storage_url_up_to_next_marker (seg tail : string) :
  Str.contains "gs://" seg = false ->
  (tail =? "")%string || Str.startswith "gs://" tail = true ->
  get_storage_url ("gs://" ++ seg ++ tail)
  = Ok ("https://storage.googleapis.com/" ++ seg).
Proof.
  intros Hseg Htail. rewrite get_storage_url_unfold.
  rewrite (StrFacts.split_from_hit "gs://" eq_refl (seg ++ tail)).
  apply orb_true_iff in Htail as [Hnil|Hmark].
  - apply String.eqb_eq in Hnil; subst tail.
    rewrite StrFacts.append_nil_r.
    now rewrite (StrFacts.split_from_clean "gs://" seg Hseg).
  - apply StrFacts.startswith_inv in Hmark as [more ->].
    now rewrite (StrFacts.split_from_piece "gs://" eq_refl seg more Hseg).
Qed.

(** For a reference [gs://] followed by [rest], where [rest] does not hold
    the marker again, the URL is the public base followed by [rest]. *)
Theorem get_storage_url_of_reference (rest : string) :
  Str.contains "gs://" rest = false ->
  get_storage_url ("gs://" ++ rest)
  = Ok ("https://storage.googleapis.com/" ++ rest).
Proof.
  intros Hrest.
  rewrite <- (StrFacts.append_nil_r rest) at 1.
  now apply get_storage_url_up_to_next_marker.
Qed.

Lemma get_storage_url_of_reference_witness :
  Str.contains "gs://" "my-bucket/path/to/object.txt" = false
  /\ get_storage_url "gs://my-bucket/path/to/object.txt"
     = Ok "https://storage.googleapis.com/my-bucket/path/to/object.txt".
Proof.
  split; [reflexivity|].
  apply (get_storage_url_of_reference "my-bucket/path/to/object.txt").
  reflexivity.
Defined.

(** C8.  On a string in which [gs://] does not occur, [get_storage_url]
    returns no URL: the index into the one-piece split raises
    [IndexError]. *)
Theorem get_storage_url_without_marker (gcs_uri : string) :
  Str.contains "gs://" gcs_uri = false ->
  get_storage_url gcs_uri
  = Raise (mk_exn IndexError "list index out of range").
Proof.
  intros H. rewrite get_storage_url_unfold.
  now rewrite (StrFacts.split_from_clean "gs://" gcs_uri H).
Qed.

Lemma get_storage_url_without_marker_witness :
  Str.contains "gs://" "https://example.com/object.txt" = false
  /\ get_storage_url "https://example.com/object.txt"
     = Raise (mk_exn IndexError "list index out of range").
Proof.
  split; [reflexivity|].
  apply (get_storage_url_without_marker "https://example.com/object.txt").
  reflexivity.
Defined.

(* ================================================================== *)
(** * get_model_name *)
(* ================================================================== *)

Section ModelName.

Context {R : Type}.

Lemma get_model_name_unfold (model : GenerativeModel R) :
  get_model_name model
  = "`" ++ Str.replace_from "publishers/google/models/" "" 0
             (_model_name model) ++ "`".
Proof. reflexivity. Qed.

(** C9, amended.  When the path [publishers/google/models/] occurs nowhere
    in [rest], the label of the identifier [rest], and of the identifier
    made of the path followed by [rest], is [rest] between backticks. *)
Theorem get_model_name_strips_prefix
    (model : GenerativeModel R) (rest : string) :
  Str.contains "publishers/google/models/" rest = false ->
  _model_name model = rest
  \/ _model_name model = "publishers/google/models/" ++ rest ->
  get_model_name model = "`" ++ rest ++ "`".
Proof.
  intros Hrest Hid. rewrite get_model_name_unfold.
  pose proof (StrFacts.replace_from_clean
                "publishers/google/models/" "" rest Hrest) as Hclean.
  destruct Hid as [-> | ->]; [now rewrite Hclean|].
  rewrite (StrFacts.replace_from_hit
             "publishers/google/models/" eq_refl "" rest).
  now rewrite Hclean.
Qed.

(** C10.  Every occurrence of [publishers/google/models/] goes, wherever it
    stands: for an identifier made of pieces free of the path with the path
    between each two, the label is the pieces put together, between
    backticks. *)
Theorem get_model_name_removes_every_occurrence
    (model : GenerativeModel R) (pieces : list string) :
  forallb (fun piece =>
             negb (Str.contains "publishers/google/models/" piece)) pieces
  = true ->
  _model_name model = Str.join "publishers/google/models/" pieces ->
  get_model_name model = "`" ++ Str.join "" pieces ++ "`".
Proof.
  intros Hpieces Hid. rewrite get_model_name_unfold, Hid.
  now rewrite (StrFacts.replace_from_join
                 "publishers/google/models/" eq_refl "" pieces Hpieces).
Qed.

(** Every identifier is such a join, so the theorem above leaves none
    out. *)
Lemma get_model_name_any_identifier (model : GenerativeModel R) :
  exists pieces,
    _model_name model = Str.join "publishers/google/models/" pieces
    /\ forallb (fun piece =>
                  negb (Str.contains "publishers/google/models/" piece))
         pieces = true
    /\ get_model_name model = "`" ++ Str.join "" pieces ++ "`".
Proof.
  destruct (StrFacts.every_string_is_a_join
              "publishers/google/models/" (_model_name model))
    as (pieces & _ & Hid & Hpieces); [discriminate|].
  exists pieces. repeat split; try assumption.
  rewrite get_model_name_unfold, Hid.
  now rewrite (StrFacts.replace_from_join
                 "publishers/google/models/" eq_refl "" pieces Hpieces).
Qed.

End ModelName.

(** C9, as stated, fails: an identifier that does not begin with the path
    but holds it further on is not returned unchanged. *)
Lemma get_model_name_inner_occurrence :
  let identifier := "tuned/publishers/google/models/gemini-1.5-pro" in
  Str.startswith "publishers/google/models/" identifier = false
  /\ get_model_name (canned identifier (said "") []) = "`tuned/gemini-1.5-pro`"
  /\ get_model_name (canned identifier (said "") [])
     <> "`" ++ identifier ++ "`".
Proof. split; [reflexivity | split; [reflexivity | discriminate]]. Qed.

Lemma get_model_name_strips_prefix_witness :
  Str.contains "publishers/google/models/" "gemini-1.5-pro" = false
  /\ get_model_name (pro (said "") []) = "`gemini-1.5-pro`".
Proof.
  split; [reflexivity|].
  apply (get_model_name_strips_prefix (pro (said "") []) "gemini-1.5-pro");
    [reflexivity | right; reflexivity].
Defined.

Lemma get_model_name_removes_every_occurrence_witness :
  let identifier :=
    "x/publishers/google/models/gemini-publishers/google/models/pro" in
  get_model_name (canned identifier (said "") []) = "`x/gemini-pro`".
Proof.
  apply (get_model_name_removes_every_occurrence
           (canned
              "x/publishers/google/models/gemini-publishers/google/models/pro"
              (said "") [])
           ["x/"; "gemini-"; "pro"]);
    reflexivity.
Defined.

(* ================================================================== *)
(** * More on join, split and the loop *)
(* ================================================================== *)

Module JoinFacts.
Import Str.

Lemma join_cons (sep x : string) (l : list string) :
  l <> [] -> join sep (x :: l) = x ++ sep ++ join sep l.
Proof. destruct l; [congruence|reflexivity]. Qed.

(** Joining two non-empty lists put end to end puts one separator between
    their joins. *)
Lemma join_app (sep : string) (l1 l2 : list string) :
  l1 <> [] -> l2 <> [] ->
  join sep (l1 ++ l2)%list = join sep l1 ++ sep ++ join sep l2.
Proof.
  intros H1 H2. induction l1 as [|x l1 IH]; [congruence|].
  destruct l1 as [|y l1].
  - cbn [app]. now apply join_cons.
  - change ((x :: y :: l1) ++ l2)%list with (x :: ((y :: l1) ++ l2))%list.
    rewrite join_cons by discriminate.
    rewrite IH by discriminate.
    rewrite (join_cons sep x (y :: l1)) by discriminate.
    now rewrite !StrFacts.append_assoc.
Qed.

(** The length of a join: the lengths of the pieces and one separator
    between each two. *)
Lemma join_length (sep : string) (l : list string) :
  String.length (join sep l)
  = list_sum (map String.length l)
    + String.length sep * (List.length l - 1).
Proof.
  induction l as [|x l IH]; [cbn; lia|].
  destruct l as [|y l].
  - cbn. lia.
  - rewrite join_cons by discriminate.
    rewrite !StrFacts.length_append, IH.
    cbn [map List.length Nat.sub]. rewrite ?Nat.sub_0_r.
    unfold list_sum. cbn [fold_right]. nia.
Qed.

Section Pieces.

Variable pat : string.
Hypothesis pat_head_unique : head_unique pat = true.

(** Splitting a join of pieces without occurrence gives the pieces back. *)
Lemma split_from_join (pieces : list string) :
  pieces <> [] ->
  forallb (fun piece => negb (contains pat piece)) pieces = true ->
  split_from pat 0 (join pat pieces) = pieces.
Proof.
  induction pieces as [|x l IH]; intros Hne H; [congruence|].
  cbn [forallb] in H. apply andb_true_iff in H as [Hx H].
  apply negb_true_iff in Hx.
  destruct l as [|y l].
  - cbn [join]. now apply StrFacts.split_from_clean.
  - rewrite join_cons by discriminate.
    rewrite (StrFacts.split_from_piece pat pat_head_unique _ _ Hx).
    now rewrite IH by (assumption || discriminate).
Qed.

(** The pieces of a split hold no occurrence, and joining them gives the
    string back. *)
Lemma split_from_pieces (s : string) :
  split_from pat 0 s <> []
  /\ forallb (fun piece => negb (contains pat piece)) (split_from pat 0 s)
     = true
  /\ join pat (split_from pat 0 s) = s.
Proof.
  assert (Hne : pat <> "") by (destruct pat; [discriminate|congruence]).
  destruct (StrFacts.every_string_is_a_join pat s Hne)
    as (pieces & Hnil & -> & Hclean).
  rewrite (split_from_join pieces Hnil Hclean). auto.
Qed.

(** One piece exactly when the pattern does not occur. *)
Lemma split_from_one_piece (s : string) :
  contains pat s = true ->
  exists first second others, split_from pat 0 s = first :: second :: others.
Proof.
  intros Hc.
  destruct (split_from_pieces s) as (Hnil & Hclean & Hjoin).
  destruct (split_from pat 0 s) as [|first [|second others]] eqn:E.
  - congruence.
  - cbn [join] in Hjoin. subst first.
    cbn [forallb] in Hclean. rewrite Hc in Hclean. discriminate.
  - now exists first, second, others.
Qed.

End Pieces.

End JoinFacts.

(** Where a test fails on a list, it fails at a first element. *)
Lemma first_failure {A : Type} (f : A -> bool) (l : list A) :
  forallb f l = false ->
  exists before bad after,
    l = (before ++ bad :: after)%list
    /\ forallb f before = true /\ f bad = false.
Proof.
  induction l as [|x l IH]; intros H; [discriminate|].
  cbn [forallb] in H. destruct (f x) eqn:Hx.
  - destruct (IH H) as (before & bad & after & -> & Hb & Hbad).
    exists (x :: before), bad, after. cbn [forallb]. rewrite Hx. auto.
  - exists [], x, l. auto.
Qed.

(* ================================================================== *)
(** * The assembler on any stream *)
(* ================================================================== *)

Section AssemblerOnStreams.

Context {R : Type} {R_text : HasText R}.

Variable model : GenerativeModel R.
Variable contents : Contents.
Variable generation_config : GenerationConfig.

Lemma streamed_call (g : Generator R) :
  generate_content model contents generation_config safety_settings true
  = Ok (Streamed g) ->
  get_gemini_response model contents generation_config true
  = (final_response <- accumulate g ;; Ok (Str.join " " final_response)).
Proof. intros Hcall. unfold get_gemini_response. now rewrite Hcall. Qed.

(** X1.  Any number of chunks may lack their payload: when every chunk has
    a text or fails with what [except IndexError] catches, the list joined
    has one entry per chunk, the text or the empty string, in order. *)
Theorem missing_payloads_become_empty_strings (chunks : list R) :
  generate_content model contents generation_config safety_settings true
  = Ok (Streamed (yields chunks)) ->
  forallb recoverable chunks = true ->
  accumulate (yields chunks) = Ok (map appended chunks)
  /\ get_gemini_response model contents generation_config true
     = Ok (Str.join " " (map appended chunks)).
Proof.
  intros Hcall Hrec.
  assert (Hacc : accumulate (yields chunks) = Ok (map appended chunks)).
  { unfold accumulate. now rewrite (loop_all_recoverable _ Hrec). }
  split; [exact Hacc|].
  rewrite (streamed_call _ Hcall), Hacc. reflexivity.
Qed.

(** X2.  On a stream of chunks the assembler returns a string exactly when
    every chunk has a text or fails with what [except IndexError]
    catches. *)
Theorem returns_iff_all_recoverable (chunks : list R) :
  generate_content model contents generation_config safety_settings true
  = Ok (Streamed (yields chunks)) ->
  (exists s, get_gemini_response model contents generation_config true = Ok s)
  <-> forallb recoverable chunks = true.
Proof.
  intros Hcall. rewrite (streamed_call _ Hcall). split.
  - intros [s Hs]. destruct (forallb recoverable chunks) eqn:Hrec;
      [reflexivity|exfalso].
    destruct (first_failure _ _ Hrec)
      as (before & bad & after & -> & Hbefore & Hbad).
    unfold accumulate in Hs.
    rewrite (loop_past_recoverable _ _ _ Hbefore) in Hs.
    cbn [yields for_r_in_responses] in Hs. unfold recoverable in Hbad.
    destruct (text bad) as [t|e]; [discriminate|].
    rewrite Hbad in Hs. discriminate.
  - intros Hrec. unfold accumulate.
    rewrite (loop_all_recoverable _ Hrec). now eexists.
Qed.

(** X3.  The [try] is inside the loop body: an exception raised by the
    iterator itself, after chunks the loop got past, leaves the function,
    be it an [IndexError]; the texts gathered so far are not returned. *)
Theorem iterator_failure_not_caught (before : list R) (e : exn) :
  generate_content model contents generation_config safety_settings true
  = Ok (Streamed (fold_right Yield (Throw e) before)) ->
  forallb recoverable before = true ->
  get_gemini_response model contents generation_config true = Raise e.
Proof.
  intros Hcall Hrec. rewrite (streamed_call _ Hcall).
  unfold accumulate. now rewrite (generator_failure_propagates _ e Hrec).
Qed.

(** X4.  The string returned for a stream is as long as the texts of its
    chunks together, plus one for each chunk after the first. *)
Theorem assembled_length (chunks : list R) :
  generate_content model contents generation_config safety_settings true
  = Ok (Streamed (yields chunks)) ->
  forallb recoverable chunks = true ->
  exists s,
    get_gemini_response model contents generation_config true = Ok s
    /\ String.length s
       = list_sum (map (fun r => String.length (appended r)) chunks)
         + (List.length chunks - 1).
Proof.
  intros Hcall Hrec.
  rewrite (streamed_call _ Hcall). unfold accumulate.
  rewrite (loop_all_recoverable _ Hrec). eexists; split; [reflexivity|].
  rewrite JoinFacts.join_length, map_map, length_map.
  cbn [String.length]. lia.
Qed.

(** X5.  With two chunks or more the string returned is never the texts
    put end to end: a space stands at every border between chunks. *)
Theorem never_plain_concatenation (chunks : list R) :
  generate_content model contents generation_config safety_settings true
  = Ok (Streamed (yields chunks)) ->
  forallb recoverable chunks = true ->
  2 <= List.length chunks ->
  get_gemini_response model contents generation_config true
  <> Ok (Str.join "" (map appended chunks)).
Proof.
  intros Hcall Hrec Hlen.
  rewrite (streamed_call _ Hcall). unfold accumulate.
  rewrite (loop_all_recoverable _ Hrec). cbn [bind fst].
  intros Heq. injection Heq as Heq.
  apply (f_equal String.length) in Heq.
  rewrite !JoinFacts.join_length, length_map in Heq.
  cbn [String.length] in Heq. lia.
Qed.

End AssemblerOnStreams.

(** X6.  A stream that is two non-empty streams one after the other is
    assembled into the strings of the two, with one space between. *)
Theorem assembling_consecutive_streams
    {R : Type} {R_text : HasText R}
    (model1 model2 model12 : GenerativeModel R)
    (contents : Contents) (generation_config : GenerationConfig)
    (chunks1 chunks2 : list R) :
  generate_content model1 contents generation_config safety_settings true
  = Ok (Streamed (yields chunks1)) ->
  generate_content model2 contents generation_config safety_settings true
  = Ok (Streamed (yields chunks2)) ->
  generate_content model12 contents generation_config safety_settings true
  = Ok (Streamed (yields (chunks1 ++ chunks2))) ->
  forallb recoverable chunks1 = true ->
  forallb recoverable chunks2 = true ->
  chunks1 <> [] ->
  chunks2 <> [] ->
  exists s1 s2,
    get_gemini_response model1 contents generation_config true = Ok s1
    /\ get_gemini_response model2 contents generation_config true = Ok s2
    /\ get_gemini_response model12 contents generation_config true
       = Ok (s1 ++ " " ++ s2).
Proof.
  intros H1 H2 H12 Hr1 Hr2 Hn1 Hn2.
  assert (Hr12 : forallb recoverable (chunks1 ++ chunks2) = true)
    by (rewrite forallb_app, Hr1, Hr2; reflexivity).
  rewrite (streamed_call _ _ _ _ H1), (streamed_call _ _ _ _ H2),
    (streamed_call _ _ _ _ H12).
  unfold accumulate.
  rewrite (loop_all_recoverable _ Hr1), (loop_all_recoverable _ Hr2),
    (loop_all_recoverable _ Hr12).
  cbn [bind fst]. do 2 eexists. repeat split.
  rewrite map_app. f_equal. apply JoinFacts.join_app.
  - destruct chunks1; [congruence|discriminate].
  - destruct chunks2; [congruence|discriminate].
Qed.

(* ================================================================== *)
(** * get_storage_url on any string *)
(* ================================================================== *)

(** The marker does not occur in the public base, nor across its end. *)
Lemma base_holds_no_marker (tail : string) :
  Str.contains "gs://" ("https://storage.googleapis.com/" ++ tail)
  = Str.contains "gs://" tail.
Proof. reflexivity. Qed.

(** X7.  [get_storage_url] returns a URL exactly when [gs://] occurs in its
    argument. *)
Theorem get_storage_url_returns_iff_marker (gcs_uri : string) :
  (exists url, get_storage_url gcs_uri = Ok url)
  <-> Str.contains "gs://" gcs_uri = true.
Proof.
  rewrite get_storage_url_unfold. split.
  - intros [url Hurl].
    destruct (Str.contains "gs://" gcs_uri) eqn:Hc; [reflexivity|].
    rewrite (StrFacts.split_from_clean "gs://" gcs_uri Hc) in Hurl.
    discriminate.
  - intros Hc.
    destruct (JoinFacts.split_from_one_piece "gs://" eq_refl gcs_uri Hc)
      as (first & second & others & ->).
    now eexists.
Qed.

(** X8.  Only what stands between the first and the second marker is kept:
    for pieces joined by [gs://], the first two of them without marker, the
    URL is the public base followed by the second piece; what comes before
    the first marker and from the second marker on is dropped. *)
Theorem get_storage_url_keeps_second_piece
    (first second : string) (others : list string) :
  Str.contains "gs://" first = false ->
  Str.contains "gs://" second = false ->
  get_storage_url (Str.join "gs://" (first :: second :: others))
  = Ok ("https://storage.googleapis.com/" ++ second).
Proof.
  intros Hfirst Hsecond. rewrite get_storage_url_unfold.
  rewrite JoinFacts.join_cons by discriminate.
  rewrite (StrFacts.split_from_piece "gs://" eq_refl _ _ Hfirst).
  destruct others as [|third others].
  - cbn [Str.join].
    now rewrite (StrFacts.split_from_clean "gs://" second Hsecond).
  - rewrite JoinFacts.join_cons by discriminate.
    now rewrite (StrFacts.split_from_piece "gs://" eq_refl _ _ Hsecond).
Qed.

(** X9.  A URL returned holds no marker, so that [get_storage_url] applied
    to its own result always raises [IndexError]. *)
Theorem get_storage_url_twice_raises (gcs_uri url : string) :
  get_storage_url gcs_uri = Ok url ->
  Str.contains "gs://" url = false
  /\ get_storage_url url
     = Raise (mk_exn IndexError "list index out of range").
Proof.
  intros Hurl. rewrite get_storage_url_unfold in Hurl.
  destruct (JoinFacts.split_from_pieces "gs://" eq_refl gcs_uri)
    as (_ & Hclean & _).
  destruct (Str.split_from "gs://" 0 gcs_uri) as [|first [|second others]];
    try discriminate.
  assert (Hu : url = "https://storage.googleapis.com/" ++ second)
    by congruence.
  subst url. clear Hurl.
  cbn [forallb] in Hclean.
  apply andb_true_iff in Hclean as [_ Hclean].
  apply andb_true_iff in Hclean as [Hsecond _].
  apply negb_true_iff in Hsecond.
  assert (Hc : Str.contains "gs://"
                 ("https://storage.googleapis.com/" ++ second) = false)
    by (rewrite base_holds_no_marker; exact Hsecond).
  split; [exact Hc|].
  rewrite get_storage_url_unfold.
  now rewrite (StrFacts.split_from_clean "gs://" _ Hc).
Qed.

(* ================================================================== *)
(** * get_model_name on any identifier *)
(* ================================================================== *)

(** X10.  The label is the identifier between backticks exactly when the
    path [publishers/google/models/] occurs nowhere in the identifier. *)
Theorem get_model_name_unchanged_iff_absent
    {R : Type} (model : GenerativeModel R) :
  get_model_name model = "`" ++ _model_name model ++ "`"
  <-> Str.contains "publishers/google/models/" (_model_name model) = false.
Proof.
  rewrite get_model_name_unfold. split.
  - intros Heq.
    destruct (Str.contains "publishers/google/models/" (_model_name model))
      eqn:Hc; [exfalso|reflexivity].
    destruct (StrFacts.every_string_is_a_join
                "publishers/google/models/" (_model_name model))
      as (pieces & Hnil & Hid & Hclean); [discriminate|].
    rewrite Hid in Heq, Hc.
    rewrite (StrFacts.replace_from_join
               "publishers/google/models/" eq_refl "" pieces Hclean) in Heq.
    apply (f_equal String.length) in Heq.
    cbn [String.append String.length] in Heq.
    rewrite !StrFacts.length_append, !JoinFacts.join_length in Heq.
    destruct pieces as [|p [|q pieces]]; [congruence| |].
    + cbn [Str.join forallb] in Hc, Hclean. rewrite Hc in Hclean.
      discriminate.
    + cbn [String.length List.length Nat.sub] in Heq. lia.
  - intros Hc.
    now rewrite (StrFacts.replace_from_clean
                   "publishers/google/models/" "" _ Hc).
Qed.

(* ================================================================== *)
(** * The page *)
(* ================================================================== *)

(** X11.  Whatever the widgets of the form return, evaluating the f-string
    bound to [prompt] raises [NameError]: the branch on the class type
    binds one of [upskill_class] and [language_class] at most, and the
    f-string loads both. *)
Theorem prompt_raises_NameError
    (format : Page.value -> string) (form : Page.Form) :
  Page.prompt format form
  = Page.NameError
      (if (Page.class_type form =? "upskill")%string
       then "language_class" else "upskill_class").
Proof.
  unfold Page.prompt, Page.questionnaire.
  destruct (Page.class_type form =? "language")%string eqn:Hl;
    destruct (Page.class_type form =? "upskill")%string eqn:Hu;
    try reflexivity.
  apply String.eqb_eq in Hl, Hu. congruence.
Qed.

(** ** The theorems above at sample inputs *)

Lemma missing_payloads_become_empty_strings_witness :
  let chunks := [no_payload; said "Hello"; no_payload; no_payload] in
  accumulate (yields chunks) = Ok [""; "Hello"; ""; ""]
  /\ get_gemini_response (pro (said "") chunks) prompt config true
     = Ok " Hello  ".
Proof.
  refine (missing_payloads_become_empty_strings
           (pro (said "") [no_payload; said "Hello"; no_payload; no_payload])
           prompt config
           [no_payload; said "Hello"; no_payload; no_payload]
           _ _);
    reflexivity.
Defined.

Lemma returns_iff_all_recoverable_witness :
  let chunks := [said "Hello"; transport_error; said "world"] in
  (exists s,
      get_gemini_response (pro (said "") chunks) prompt config true = Ok s)
  <-> forallb recoverable chunks = true.
Proof.
  refine (returns_iff_all_recoverable
           (pro (said "") [said "Hello"; transport_error; said "world"])
           prompt config
           [said "Hello"; transport_error; said "world"]
           _);
    reflexivity.
Defined.

Lemma iterator_failure_not_caught_witness :
  get_gemini_response
    (breaking_off "publishers/google/models/gemini-1.5-pro"
       [said "Hello"; no_payload]
       (mk_exn IndexError "pop from empty list"))
    prompt config true
  = Raise (mk_exn IndexError "pop from empty list").
Proof.
  refine (iterator_failure_not_caught
           (breaking_off "publishers/google/models/gemini-1.5-pro"
              [said "Hello"; no_payload]
              (mk_exn IndexError "pop from empty list"))
           prompt config
           [said "Hello"; no_payload]
           (mk_exn IndexError "pop from empty list")
           _ _);
    reflexivity.
Defined.

Lemma assembled_length_witness :
  let chunks := [said "Hel"; said "lo,"; no_payload; said "world"] in
  exists s,
    get_gemini_response (pro (said "") chunks) prompt config true = Ok s
    /\ String.length s = 11 + 3.
Proof.
  refine (assembled_length
           (pro (said "") [said "Hel"; said "lo,"; no_payload; said "world"])
           prompt config
           [said "Hel"; said "lo,"; no_payload; said "world"]
           _ _);
    reflexivity.
Defined.

Lemma never_plain_concatenation_witness :
  get_gemini_response (pro (said "") [said "Hel"; said "lo"]) prompt config
    true
  <> Ok "Hello".
Proof.
  refine (never_plain_concatenation
           (pro (said "") [said "Hel"; said "lo"]) prompt config
           [said "Hel"; said "lo"]
           _ _ _);
    [reflexivity | reflexivity | cbn; lia].
Defined.

Lemma assembling_consecutive_streams_witness :
  exists s1 s2,
    get_gemini_response (pro (said "") [said "a"; no_payload]) prompt config
      true = Ok s1
    /\ get_gemini_response (pro (said "") [said "b"; said "c"]) prompt config
         true = Ok s2
    /\ get_gemini_response
         (pro (said "") [said "a"; no_payload; said "b"; said "c"]) prompt
         config true
       = Ok (s1 ++ " " ++ s2).
Proof.
  refine (assembling_consecutive_streams
           (pro (said "") [said "a"; no_payload])
           (pro (said "") [said "b"; said "c"])
           (pro (said "") [said "a"; no_payload; said "b"; said "c"])
           prompt config
           [said "a"; no_payload] [said "b"; said "c"]
           _ _ _ _ _ _ _);
    try reflexivity; discriminate.
Defined.

Lemma get_storage_url_keeps_second_piece_witness :
  get_storage_url "see gs://bucket/a and gs://bucket/b"
  = Ok "https://storage.googleapis.com/bucket/a and ".
Proof.
  refine (get_storage_url_keeps_second_piece
           "see " "bucket/a and " ["bucket/b"]
           _ _);
    reflexivity.
Defined.

Lemma get_storage_url_twice_raises_witness :
  Str.contains "gs://"
    "https://storage.googleapis.com/my-bucket/path/to/object.txt" = false
  /\ get_storage_url
       "https://storage.googleapis.com/my-bucket/path/to/object.txt"
     = Raise (mk_exn IndexError "list index out of range").
Proof.
  refine (get_storage_url_twice_raises
           "gs://my-bucket/path/to/object.txt"
           "https://storage.googleapis.com/my-bucket/path/to/object.txt"
           _).
  reflexivity.
Defined.
